(** * clickr-app: the Bind model and its low-level compiler

    A shallow embedding of the Bind module (src/unnamed/part_001: the Bind
    class hierarchy with [toJSON], [fromJSON], [equals], [toLL] and
    [deserializeBind]) and of the [LLBind] type of
    [models/LowLevelProfile.ts], followed by the properties the
    specification states about them. *)

From Stdlib Require Import String Ascii List Bool Arith ZArith Lia SpecFloat.
Import ListNotations.
Open Scope string_scope.
Open Scope list_scope.

(** ** JavaScript values used by the model *)

(** A TypeScript [number] is an IEEE 754 binary64 value.  The model only
    stores numbers and compares them with [===], so it keeps the standard
    library's specification of such values and its IEEE equality: [NaN] is
    equal to nothing, itself included, and the two zeros are equal.
    [spec_float] also has mantissa and exponent pairs that no binary64 value
    has; what is proved of every [spec_float] holds of the binary64 values,
    and the numbers written in this file are normalised binary64 values. *)
Definition number : Type := spec_float.

Definition NaN : number := S754_nan.

(** The number denoted by an integer literal. *)
Definition number_of_Z (z : Z) : number := binary_normalize 53 1024 z 0 false.

(** [a === b] on numbers. *)
Definition number_strict_eq (a b : number) : bool := SFeqb a b.

(** [===] on numbers holds between two zeros, between two infinities of one
    sign and between two finite numbers of one sign, mantissa and exponent. *)
Definition same_number (a b : number) : Prop :=
  match a, b with
  | S754_zero _, S754_zero _ => True
  | S754_infinity s, S754_infinity s' => s = s'
  | S754_finite s m e, S754_finite s' m' e' => s = s' /\ m = m' /\ e = e'
  | _, _ => False
  end.

(** The values a document is made of ([object] and [any] in the source).  An
    object is its list of properties, in insertion order: it is an object as
    [JSON.parse] builds one, with data properties of its own and the
    prototype of every plain object. *)
#[warnings="-register-all"]
Inductive Json : Type :=
| JUndefined
| JNull
| JBool (b : bool)
| JNumber (n : number)
| JString (s : string)
| JArray (items : list Json)
| JObject (fields : list (string * Json)).

(** [obj.key] on an object: the value of the first property named [key],
    [undefined] when there is none. *)
Fixpoint Get (key : string) (fields : list (string * Json)) : Json :=
  match fields with
  | [] => JUndefined
  | (name, v) :: rest => if String.eqb name key then v else Get key rest
  end.

(** [k (obj.key)], written so that [k] is applied to a component of the
    object; [absent] is the result for a missing property, that is
    [k undefined]. *)
Definition with_prop {A : Type} (key : string) (k : Json -> A) (absent : A)
  : list (string * Json) -> A :=
  fix look (fields : list (string * Json)) : A :=
    match fields with
    | [] => absent
    | (name, v) :: rest => if String.eqb name key then k v else look rest
    end.

(** [v === tag] for a string constant [tag], as the [switch] of
    [deserializeBind] tests it. *)
Definition is_tag (v : Json) (tag : string) : bool :=
  match v with
  | JString s => String.eqb s tag
  | _ => false
  end.

(** Whether turning [v] into text, as a template literal does with
    [obj.type], throws a TypeError.  An object is turned into text by its
    [toString]; the inherited one answers, unless a property of the object
    itself is named [toString], and then nothing callable is left (the
    inherited [valueOf] returns the object).  An array joins the texts of
    its elements, [undefined] and [null] counting as empty.  The other
    values always have a text. *)
Fixpoint text_throws (v : Json) : bool :=
  match v with
  | JObject fields =>
      existsb (fun field => String.eqb (fst field) "toString") fields
  | JArray items => existsb text_throws items
  | _ => false
  end.

(** ** Exceptions and results *)

(** [UnknownBindType] is the [Error] whose message is ["Unknown Bind type: "]
    followed by the text of [obj.type]; the text after the colon is left
    out of the model. *)
Inductive Exception : Type :=
| MethodNotImplemented            (* new Error('Method not implemented.') *)
| UnknownBindType                 (* new Error(`Unknown Bind type: ${obj.type}`) *)
| TypeError                       (* a property read or a call on undefined, a call of a non-function, a value with no text *)
| TriggerException (message : string). (* whatever deserializeTrigger throws *)

(** The outcome of a call.  [IllTyped] marks a document that does not inhabit
    the TypeScript parameter type of the [fromJSON] routine it reaches (a
    [value] that is no string, a [times] that is no array of numbers): the
    JavaScript run time goes on there with an object whose fields contradict
    their declared types.  No typed value comes out of such a call, and
    nothing is thrown by it: the calls that follow it are still made, and
    what they throw is thrown. *)
Inductive Result (A : Type) : Type :=
| Ok (a : A)
| Throw (e : Exception)
| IllTyped.

Arguments Ok {A} a.
Arguments Throw {A} e.
Arguments IllTyped {A}.

Definition andThen {A B : Type} (r : Result A) (k : A -> Result B) : Result B :=
  match r with
  | Ok a => k a
  | Throw e => Throw e
  | IllTyped => IllTyped
  end.

Notation "x <- r ;; k" := (andThen r (fun x => k))
  (at level 61, r at next level, right associativity).

(** Two calls made one after the other, neither using what the other
    returns: the exception of the first comes out, else that of the second,
    also when the first returned an ill-typed value. *)
Definition andAlso {A B : Type} (r : Result A) (r' : Result B) : Result (A * B) :=
  match r with
  | Throw e => Throw e
  | Ok a =>
      match r' with
      | Ok b => Ok (a, b)
      | Throw e => Throw e
      | IllTyped => IllTyped
      end
  | IllTyped =>
      match r' with
      | Throw e => Throw e
      | _ => IllTyped
      end
  end.

(** [Array.prototype.map] with a callback that may throw: the elements are
    visited in order and the first exception leaves the loop. *)
Definition Array_map {A B : Type} (callback : A -> Result B)
  : list A -> Result (list B) :=
  fix go (l : list A) : Result (list B) :=
    match l with
    | [] => Ok []
    | x :: rest =>
        both <- andAlso (callback x) (go rest) ;; Ok (fst both :: snd both)
    end.

(** [Array.prototype.every] with the [(element, index)] callback. *)
Definition every_from {A : Type} (callback : A -> nat -> bool)
  : nat -> list A -> bool :=
  fix go (i : nat) (l : list A) : bool :=
    match l with
    | [] => true
    | x :: rest => if callback x i then go (S i) rest else false
    end.

Definition every {A : Type} (callback : A -> nat -> bool) (l : list A) : bool :=
  every_from callback 0%nat l.

(** [Array.prototype.flat] on an array of arrays of instructions. *)
Definition flat {A : Type} (ls : list (list A)) : list A := List.concat ls.

Definition as_string (v : Json) : Result string :=
  match v with
  | JString s => Ok s
  | _ => IllTyped
  end.

Definition as_number (v : Json) : Result number :=
  match v with
  | JNumber n => Ok n
  | _ => IllTyped
  end.

Definition as_number_array (v : Json) : Result (list number) :=
  match v with
  | JArray items => Array_map as_number items
  | _ => IllTyped
  end.

(** ** models/LowLevelProfile.ts *)

Inductive LLBind : Type :=
| LLPressKey (value : string)     (* { type: "press_key", value } *)
| LLReleaseKey (value : string)   (* { type: "release_key", value } *)
| LLSwapLayer (value : number)    (* { type: "switch_layer", value } *)
| LLWait (value : number).        (* { type: "wait", value } *)

(** ** The Bind module (src/unnamed/part_001) *)

Module BindType.
Definition PressKey : string := "press_key".
Definition ReleaseKey : string := "release_key".
Definition TapKey : string := "tap_key".
Definition SwitchLayer : string := "switch_layer".
Definition Macro : string := "macro".
Definition TimedMacro : string := "timed_macro_bind".
Definition Repeat : string := "repeat_bind".
Definition AppOpen : string := "app_open_bind".

Definition all : list string :=
  [PressKey; ReleaseKey; TapKey; SwitchLayer; Macro; TimedMacro; Repeat; AppOpen].
End BindType.

(** Modelled from the spec: the module [./Trigger], which the Bind module
    imports [Trigger] and [deserializeTrigger] from, is not among the
    sources.  The specification describes it as an external collaborator
    that "exposes serialize/deserialize/equals, consumed opaquely by Repeat's
    cancel_trigger"; the model takes exactly these three operations as an
    interface. *)
Class TriggerInterface : Type := {
  Trigger : Type;
  Trigger_equals : Trigger -> Trigger -> bool;
  Trigger_toJSON : Trigger -> Json;
  deserializeTrigger : Json -> Result Trigger
}.

Section BindModel.

Context {TI : TriggerInterface}.

#[warnings="-register-all"]
Inductive Bind : Type :=
| PressKey (value : string)
| ReleaseKey (value : string)
| TapKey (value : string)
| Macro (binds : list Bind)
| TimedMacro (binds : list Bind) (times : list number)
| Repeat (value : Bind) (time_delay : number) (times_to_execute : number)
         (cancel_trigger : Trigger)
| SwapLayer (layer_number : number)
| AppOpen_Bind (app_name : string).

(** The [bind_type] field each constructor passes to [super]. *)
Definition bind_type (b : Bind) : string :=
  match b with
  | PressKey _ => BindType.PressKey
  | ReleaseKey _ => BindType.ReleaseKey
  | TapKey _ => BindType.TapKey
  | Macro _ => BindType.Macro
  | TimedMacro _ _ => BindType.TimedMacro
  | Repeat _ _ _ _ => BindType.Repeat
  | SwapLayer _ => BindType.SwitchLayer
  | AppOpen_Bind _ => BindType.AppOpen
  end.

(** *** toJSON *)

Fixpoint toJSON (b : Bind) : Json :=
  match b with
  | PressKey value =>
      JObject [("type", JString BindType.PressKey); ("value", JString value)]
  | ReleaseKey value =>
      JObject [("type", JString BindType.ReleaseKey); ("value", JString value)]
  | TapKey value =>
      JObject [("type", JString BindType.TapKey); ("value", JString value)]
  | Macro binds =>
      JObject [("type", JString BindType.Macro);
               ("binds", JArray (map toJSON binds))]
  | TimedMacro binds times =>
      JObject [("type", JString BindType.TimedMacro);
               ("binds", JArray (map toJSON binds));
               ("times", JArray (map JNumber times))]
  | Repeat value time_delay times_to_execute cancel_trigger =>
      JObject [("type", JString BindType.Repeat);
               ("value", toJSON value);
               ("time_delay", JNumber time_delay);
               ("times_to_execute", JNumber times_to_execute);
               ("cancel_trigger", Trigger_toJSON cancel_trigger)]
  | SwapLayer layer_number =>
      JObject [("type", JString BindType.SwitchLayer);
               ("value", JNumber layer_number)]
  | AppOpen_Bind app_name =>
      JObject [("type", JString BindType.AppOpen);
               ("app_name", JString app_name)]
  end.

(** *** equals

    [other instanceof C] is the match on [other]; [other.binds[i]] past the
    end is [undefined], which is an instance of no class and never [===] a
    number, so both callbacks answer [false] there. *)
Fixpoint equals (this other : Bind) : bool :=
  match this with
  | PressKey value =>
      match other with
      | PressKey value' => String.eqb value value'
      | _ => false
      end
  | ReleaseKey value =>
      match other with
      | ReleaseKey value' => String.eqb value value'
      | _ => false
      end
  | TapKey value =>
      match other with
      | TapKey value' => String.eqb value value'
      | _ => false
      end
  | Macro binds =>
      match other with
      | Macro binds' =>
          Nat.eqb (length binds) (length binds') &&
          every (fun b i => match nth_error binds' i with
                            | Some o => equals b o
                            | None => false
                            end) binds
      | _ => false
      end
  | TimedMacro binds times =>
      match other with
      | TimedMacro binds' times' =>
          Nat.eqb (length binds) (length binds') &&
          Nat.eqb (length times) (length times') &&
          every (fun b i => match nth_error binds' i with
                            | Some o => equals b o
                            | None => false
                            end) binds &&
          every (fun t i => match nth_error times' i with
                            | Some t' => number_strict_eq t t'
                            | None => false
                            end) times
      | _ => false
      end
  | Repeat value time_delay times_to_execute cancel_trigger =>
      match other with
      | Repeat value' time_delay' times_to_execute' cancel_trigger' =>
          equals value value' &&
          number_strict_eq time_delay time_delay' &&
          number_strict_eq times_to_execute times_to_execute' &&
          Trigger_equals cancel_trigger cancel_trigger'
      | _ => false
      end
  | SwapLayer layer_number =>
      match other with
      | SwapLayer layer_number' => number_strict_eq layer_number layer_number'
      | _ => false
      end
  | AppOpen_Bind app_name =>
      match other with
      | AppOpen_Bind app_name' => String.eqb app_name app_name'
      | _ => false
      end
  end.

(** *** toLL *)

(** The [for] loop of [TimedMacro.toLL].  Its state is the counter [i] and
    the local array [binds] being filled; the condition [i < binds.length]
    reads that local array.  [rest] is [this.binds] from index [i] on, so
    [this.binds[i]] is its head, and [undefined] (on which [.toLL()] is a
    TypeError) when it is empty.  [lower] is the [toLL] of the children. *)
Definition TimedMacro_toLL_loop (lower : Bind -> Result (list LLBind))
    (times : list number)
  : list Bind -> nat -> list LLBind -> Result (list LLBind) :=
  fix loop (rest : list Bind) (i : nat) (binds : list LLBind) :=
    if (i <? length binds)%nat then
      match rest with
      | [] => Throw TypeError
      | child :: rest' =>
          lowered <- lower child ;;
          let binds := binds ++ lowered in
          let binds :=
            match nth_error times i with
            | Some t => binds ++ [LLWait t]
            | None => binds
            end in
          loop rest' (S i) binds
      end
    else Ok binds.

Fixpoint toLL (b : Bind) : Result (list LLBind) :=
  match b with
  | PressKey value => Ok [LLPressKey value]
  | ReleaseKey value => Ok [LLReleaseKey value]
  | TapKey value => Ok [LLPressKey value; LLReleaseKey value]
  | Macro binds => lowered <- Array_map toLL binds ;; Ok (flat lowered)
  | TimedMacro binds times => TimedMacro_toLL_loop toLL times binds 0%nat []
  | Repeat _ _ _ _ => Throw MethodNotImplemented
  | SwapLayer layer_number => Ok [LLSwapLayer layer_number]
  | AppOpen_Bind _ => Throw MethodNotImplemented
  end.

(** *** fromJSON and deserializeBind

    [Macro.fromJSON], [TimedMacro.fromJSON] and [Repeat.fromJSON] call
    [deserializeBind], which calls them: they take it as [deserialize]. *)

Definition PressKey_fromJSON (obj : list (string * Json)) : Result Bind :=
  value <- as_string (Get "value" obj) ;; Ok (PressKey value).

Definition ReleaseKey_fromJSON (obj : list (string * Json)) : Result Bind :=
  value <- as_string (Get "value" obj) ;; Ok (ReleaseKey value).

Definition TapKey_fromJSON (obj : list (string * Json)) : Result Bind :=
  value <- as_string (Get "value" obj) ;; Ok (TapKey value).

(** [obj.binds.map(deserializeBind)]: [.map] on anything but an array is a
    TypeError. *)
Definition binds_map (deserialize : Json -> Result Bind) (binds : Json)
  : Result (list Bind) :=
  match binds with
  | JArray items => Array_map deserialize items
  | _ => Throw TypeError
  end.

Definition Macro_fromJSON (deserialize : Json -> Result Bind)
    (obj : list (string * Json)) : Result Bind :=
  binds <- with_prop "binds" (binds_map deserialize) (Throw TypeError) obj ;;
  Ok (Macro binds).

Definition TimedMacro_fromJSON (deserialize : Json -> Result Bind)
    (obj : list (string * Json)) : Result Bind :=
  binds <- with_prop "binds" (binds_map deserialize) (Throw TypeError) obj ;;
  times <- as_number_array (Get "times" obj) ;;
  Ok (TimedMacro binds times).

(** The arguments of [new Repeat(...)] are evaluated left to right:
    [deserializeBind(obj.value)] throws before [deserializeTrigger] does.
    [deserializeBind(undefined)] is the TypeError of [undefined.type]. *)
Definition Repeat_fromJSON (deserialize : Json -> Result Bind)
    (obj : list (string * Json)) : Result Bind :=
  both <- andAlso (with_prop "value" deserialize (Throw TypeError) obj)
                  (deserializeTrigger (Get "cancel_trigger" obj)) ;;
  time_delay <- as_number (Get "time_delay" obj) ;;
  times_to_execute <- as_number (Get "times_to_execute" obj) ;;
  Ok (Repeat (fst both) time_delay times_to_execute (snd both)).

Definition SwapLayer_fromJSON (obj : list (string * Json)) : Result Bind :=
  layer_num <- as_number (Get "value" obj) ;; Ok (SwapLayer layer_num).

Definition AppOpen_Bind_fromJSON (obj : list (string * Json)) : Result Bind :=
  app_name <- as_string (Get "app_name" obj) ;; Ok (AppOpen_Bind app_name).

(** The [default] branch of the [switch]: the message of the error is built
    first, and building it throws when [obj.type] has no text. *)
Definition unknown_type (type : Json) : Result Bind :=
  if text_throws type then Throw TypeError else Throw UnknownBindType.

(** [obj.type] throws on [undefined] and [null] and is [undefined] on the
    other values that are no objects (numbers, strings, booleans, arrays). *)
Fixpoint deserializeBind (obj : Json) : Result Bind :=
  match obj with
  | JUndefined | JNull => Throw TypeError
  | JObject fields =>
      let type := Get "type" fields in
      if is_tag type BindType.PressKey then PressKey_fromJSON fields
      else if is_tag type BindType.ReleaseKey then ReleaseKey_fromJSON fields
      else if is_tag type BindType.TapKey then TapKey_fromJSON fields
      else if is_tag type BindType.Macro then
        Macro_fromJSON deserializeBind fields
      else if is_tag type BindType.TimedMacro then
        TimedMacro_fromJSON deserializeBind fields
      else if is_tag type BindType.Repeat then
        Repeat_fromJSON deserializeBind fields
      else if is_tag type BindType.SwitchLayer then SwapLayer_fromJSON fields
      else if is_tag type BindType.AppOpen then AppOpen_Bind_fromJSON fields
      else unknown_type type
  | JBool _ | JNumber _ | JString _ | JArray _ => unknown_type JUndefined
  end.

(** *** Notions the properties are stated with *)

Definition is_NaN (n : number) : bool :=
  match n with
  | S754_nan => true
  | _ => false
  end.

(** No numeric attribute of the bind, at any depth, is [NaN]. *)
Fixpoint NaN_free (b : Bind) : bool :=
  match b with
  | PressKey _ | ReleaseKey _ | TapKey _ | AppOpen_Bind _ => true
  | Macro binds => forallb NaN_free binds
  | TimedMacro binds times =>
      forallb NaN_free binds && forallb (fun t => negb (is_NaN t)) times
  | Repeat value time_delay times_to_execute _ =>
      NaN_free value && negb (is_NaN time_delay) &&
      negb (is_NaN times_to_execute)
  | SwapLayer layer_number => negb (is_NaN layer_number)
  end.

(** [deserializeBind(b.toJSON())] returns a bind, and when [b] holds no
    [NaN], [equals] relates that bind and [b], in both directions. *)
Definition round_trips (b : Bind) : Prop :=
  exists b' : Bind,
    deserializeBind (toJSON b) = Ok b' /\
    (NaN_free b = true -> equals b' b = true /\ equals b b' = true).

End BindModel.

(** The [type] field of a document, as [deserializeBind] reads it where it
    does not throw. *)
Definition type_field (obj : Json) : Json :=
  match obj with
  | JObject fields => Get "type" fields
  | _ => JUndefined
  end.

(** The value is one of the eight discriminants of [BindType]. *)
Definition known_type (type : Json) : bool :=
  existsb (is_tag type) BindType.all.




(** Modelled from the spec: an instance of the missing Trigger collaborator,
    which the specification describes as "an input-condition descriptor (key
    press/release, min/max wait) with its own serialization".  It has the key
    press and key release descriptors, tagged as the [LLKeyPress] and
    [LLKeyRelease] documents of [LowLevelProfile.ts] are, and serves to run
    the model on concrete binds. *)
Inductive KeyTrigger : Type :=
| KeyPress (value : string)
| KeyRelease (value : string).

Definition KeyTrigger_equals (this other : KeyTrigger) : bool :=
  match this, other with
  | KeyPress value, KeyPress value' => String.eqb value value'
  | KeyRelease value, KeyRelease value' => String.eqb value value'
  | _, _ => false
  end.

Definition KeyTrigger_toJSON (t : KeyTrigger) : Json :=
  match t with
  | KeyPress value => JObject [("type", JString "key_press"); ("value", JString value)]
  | KeyRelease value => JObject [("type", JString "key_release"); ("value", JString value)]
  end.

Definition deserializeKeyTrigger (obj : Json) : Result KeyTrigger :=
  match obj with
  | JUndefined | JNull => Throw TypeError
  | JObject fields =>
      if is_tag (Get "type" fields) "key_press" then
        value <- as_string (Get "value" fields) ;; Ok (KeyPress value)
      else if is_tag (Get "type" fields) "key_release" then
        value <- as_string (Get "value" fields) ;; Ok (KeyRelease value)
      else Throw (TriggerException "Unknown Trigger type")
  | _ => Throw (TriggerException "Unknown Trigger type")
  end.

Definition KeyTriggers : TriggerInterface := {|
  Trigger := KeyTrigger;
  Trigger_equals := KeyTrigger_equals;
  Trigger_toJSON := KeyTrigger_toJSON;
  deserializeTrigger := deserializeKeyTrigger
|}.

(** *** toString and further notions *)

Section Rendering.

Context {TI : TriggerInterface}.

(** The conversion of a number to a string that a template literal applies
    to [this.layer_number]: it belongs to the language, not to this
    repository, and the model takes it as given. *)
Variable Number_toString : number -> string.

(** [Array.prototype.join] on an array of strings. *)
Definition join (separator : string) (items : list string) : string :=
  String.concat separator items.

Fixpoint toString (b : Bind) : Result string :=
  match b with
  | PressKey value => Ok ("Press: " ++ value)%string
  | ReleaseKey value => Ok ("Release: " ++ value)%string
  | TapKey value => Ok ("Tap: " ++ value)%string
  | Macro binds =>
      rendered <- Array_map toString binds ;;
      Ok ("Macro: " ++ join ", " rendered)%string
  | TimedMacro _ _ => Throw MethodNotImplemented
  | Repeat _ _ _ _ => Throw MethodNotImplemented
  | SwapLayer layer_number =>
      Ok ("Swap Layer: " ++ Number_toString layer_number)%string
  | AppOpen_Bind _ => Throw MethodNotImplemented
  end.

End Rendering.

Section BindShapes.

Context {TI : TriggerInterface}.

(** No Repeat and no AppOpen bind is met on the way down through the
    children of Macros.  The children of a TimedMacro do not count: its
    [toLL] does not visit them. *)
Fixpoint lowerable (b : Bind) : bool :=
  match b with
  | PressKey _ | ReleaseKey _ | TapKey _ | SwapLayer _ => true
  | Macro binds => forallb lowerable binds
  | TimedMacro _ _ => true
  | Repeat _ _ _ _ | AppOpen_Bind _ => false
  end.

(** The bind is made of PressKey, ReleaseKey, TapKey, SwapLayer and Macro
    only. *)
Fixpoint renderable (b : Bind) : bool :=
  match b with
  | PressKey _ | ReleaseKey _ | TapKey _ | SwapLayer _ => true
  | Macro binds => forallb renderable binds
  | TimedMacro _ _ | Repeat _ _ _ _ | AppOpen_Bind _ => false
  end.

End BindShapes.

Definition is_wait (instruction : LLBind) : bool :=
  match instruction with
  | LLWait _ => true
  | _ => false
  end.

(** Two instructions have the same [type] and [===] values. *)
Definition LLBind_same (x y : LLBind) : bool :=
  match x, y with
  | LLPressKey v, LLPressKey v' => String.eqb v v'
  | LLReleaseKey v, LLReleaseKey v' => String.eqb v v'
  | LLSwapLayer n, LLSwapLayer n' => number_strict_eq n n'
  | LLWait n, LLWait n' => number_strict_eq n n'
  | _, _ => false
  end.

(** Two calls of [toLL] end alike: both throw the same exception, or both
    return, instruction by instruction, the same instructions. *)
Definition same_lowering (r r' : Result (list LLBind)) : Prop :=
  match r, r' with
  | Ok l, Ok l' => Forall2 (fun x y => LLBind_same x y = true) l l'
  | Throw e, Throw e' => e = e'
  | IllTyped, IllTyped => True
  | _, _ => False
  end.

(** ** Properties *)

(** *** The compiler *)

Section Lowering.

Context {TI : TriggerInterface}.

Lemma TimedMacro_toLL_loop_exits (lower : Bind -> Result (list LLBind))
    (times : list number) (rest : list Bind) (i : nat) :
  TimedMacro_toLL_loop lower times rest i [] = Ok [].
Proof.
  destruct rest; reflexivity.
Qed.

(** C2.  Whatever its [binds] and [times], a TimedMacro lowers to the empty
    instruction sequence: the loop of [TimedMacro.toLL] tests the length of
    its local array, which is empty when the loop is entered, so its body is
    never run. *)
Theorem C2_TimedMacro_toLL_empty (binds : list Bind) (times : list number) :
  toLL (TimedMacro binds times) = Ok [].
Proof.
  cbn [toLL]. apply TimedMacro_toLL_loop_exits.
Qed.

(** C1, at the input the specification gives.  The claimed result is the
    five instructions press A, release A, wait 100, press B, release B; the
    code returns the empty sequence. *)
Theorem C1_TimedMacro_toLL_at_spec_example :
  let b := TimedMacro [TapKey "A"; TapKey "B"] [number_of_Z 100] in
  toLL b = Ok [] /\
  toLL b <> Ok [LLPressKey "A"; LLReleaseKey "A"; LLWait (number_of_Z 100);
                LLPressKey "B"; LLReleaseKey "B"].
Proof.
  split; [reflexivity | discriminate].
Qed.

(** C8.  A TapKey lowers to the press of its key followed by the release of
    the same key, and nothing else. *)
Theorem C8_TapKey_toLL (k : string) :
  toLL (TapKey k) = Ok [LLPressKey k; LLReleaseKey k].
Proof.
  reflexivity.
Qed.

(** C5.  Lowering a Repeat or an AppOpen bind throws the "Method not
    implemented." error; in particular it returns no instruction sequence,
    empty or not. *)
Theorem C5_Repeat_AppOpen_toLL_unimplemented :
  (forall (value : Bind) (time_delay times_to_execute : number)
          (cancel_trigger : Trigger),
      let b := Repeat value time_delay times_to_execute cancel_trigger in
      toLL b = Throw MethodNotImplemented /\ forall l, toLL b <> Ok l) /\
  (forall app_name : string,
      toLL (AppOpen_Bind app_name) = Throw MethodNotImplemented /\
      forall l, toLL (AppOpen_Bind app_name) <> Ok l).
Proof.
  split; intros; split; try reflexivity; intros l; discriminate.
Qed.

Lemma Array_map_cons {A B : Type} (f : A -> Result B) (x : A) (l : list A) :
  Array_map f (x :: l) =
  (both <- andAlso (f x) (Array_map f l) ;; Ok (fst both :: snd both)).
Proof.
  reflexivity.
Qed.

(** [Array_map] succeeds exactly when the callback succeeds on every
    element, with the results in the order of the elements. *)
Lemma Array_map_Ok {A B : Type} (f : A -> Result B) (l : list A) (ys : list B) :
  Array_map f l = Ok ys <-> Forall2 (fun x y => f x = Ok y) l ys.
Proof.
  revert ys. induction l as [|x l IH]; intros ys.
  - cbn. split.
    + intros E. injection E as <-. constructor.
    + intros F. inversion F. reflexivity.
  - rewrite Array_map_cons. split.
    + destruct (f x) as [y| |] eqn:Ex, (Array_map f l) as [ys'| |] eqn:El;
        cbn; try discriminate.
      intros E. injection E as <-. constructor; [exact Ex | now apply IH].
    + intros F. inversion F as [|x' y l' ys' Ex Fl]; subst.
      rewrite Ex. apply IH in Fl. rewrite Fl. reflexivity.
Qed.

Lemma Array_map_app {A B : Type} (f : A -> Result B) (l1 l2 : list A)
    (ys1 ys2 : list B) :
  Array_map f l1 = Ok ys1 -> Array_map f l2 = Ok ys2 ->
  Array_map f (l1 ++ l2) = Ok (ys1 ++ ys2).
Proof.
  rewrite !Array_map_Ok. apply Forall2_app.
Qed.

Lemma Macro_toLL_Ok (bs : list Bind) (out : list LLBind) :
  toLL (Macro bs) = Ok out <->
  exists ls, Array_map toLL bs = Ok ls /\ out = flat ls.
Proof.
  cbn [toLL]. destruct (Array_map toLL bs) as [ls| |]; cbn.
  - split.
    + intros E. injection E as <-. now exists ls.
    + intros (ls' & E & ->). injection E as <-. reflexivity.
  - split; [discriminate | intros (ls' & E & _); discriminate].
  - split; [discriminate | intros (ls' & E & _); discriminate].
Qed.

(** C4.  When every child of a Macro lowers, the Macro lowers to the
    concatenation, in order, of what the children lower to, with nothing in
    between; the empty Macro lowers to the empty sequence; and a Macro that
    is a child of a Macro contributes its instructions flat, exactly as if
    its own children stood in its place. *)
Theorem C4_Macro_toLL_concat (bs : list Bind) (ls : list (list LLBind))
    (Hchildren : Forall2 (fun b l => toLL b = Ok l) bs ls) :
  toLL (Macro bs) = Ok (List.concat ls) /\
  toLL (Macro []) = Ok [] /\
  (forall (rest : list Bind) (lr : list LLBind),
      toLL (Macro rest) = Ok lr ->
      toLL (Macro (Macro bs :: rest)) = Ok (List.concat ls ++ lr) /\
      toLL (Macro (bs ++ rest)) = Ok (List.concat ls ++ lr)).
Proof.
  apply Array_map_Ok in Hchildren.
  assert (Hbs : toLL (Macro bs) = Ok (List.concat ls)).
  { apply Macro_toLL_Ok. now exists ls. }
  split; [exact Hbs | split; [reflexivity |]].
  intros rest lr Hrest.
  apply Macro_toLL_Ok in Hrest as (lrs & Hrest & ->).
  split; apply Macro_toLL_Ok.
  - exists (List.concat ls :: lrs). split; [| reflexivity].
    rewrite Array_map_cons, Hbs, Hrest. reflexivity.
  - exists (ls ++ lrs). split.
    + now apply Array_map_app.
    + unfold flat. now rewrite concat_app.
Qed.

(** C10.  [TapKey k] and [Macro [PressKey k; ReleaseKey k]] lower to the same
    instruction sequence, yet [equals] tells them apart, whichever of the two
    it is called on. *)
Theorem C10_TapKey_vs_press_release_Macro (k : string) :
  toLL (TapKey k) = toLL (Macro [PressKey k; ReleaseKey k]) /\
  equals (TapKey k) (Macro [PressKey k; ReleaseKey k]) = false /\
  equals (Macro [PressKey k; ReleaseKey k]) (TapKey k) = false.
Proof.
  split; [reflexivity | split; reflexivity].
Qed.

End Lowering.

Lemma C4_Macro_toLL_concat_witness :
  toLL (TI := KeyTriggers)
       (Macro [Macro [TapKey "A"; SwapLayer (number_of_Z 1)]; PressKey "B"])
  = Ok [LLPressKey "A"; LLReleaseKey "A"; LLSwapLayer (number_of_Z 1);
        LLPressKey "B"].
Proof.
  assert (H : Forall2 (fun b l => toLL (TI := KeyTriggers) b = Ok l)
                [TapKey "A"; SwapLayer (number_of_Z 1)]
                [[LLPressKey "A"; LLReleaseKey "A"]; [LLSwapLayer (number_of_Z 1)]]).
  { repeat constructor. }
  destruct (C4_Macro_toLL_concat _ _ H) as (_ & _ & Hnested).
  destruct (Hnested [PressKey "B"] [LLPressKey "B"] eq_refl) as (Hflat & _).
  exact Hflat.
Defined.

(** *** Structural equality *)

Section Equality.

Context {TI : TriggerInterface}.

Lemma number_strict_eq_spec (a b : number) :
  number_strict_eq a b = true <-> same_number a b.
Proof.
  unfold number_strict_eq, SFeqb.
  destruct a as [s|s| |s m e], b as [s'|s'| |s' m' e']; cbn;
    try destruct s; try destruct s'; cbn;
    try (split; [discriminate | contradiction]);
    try (split; [discriminate | intros E; discriminate]);
    try (split; [discriminate | intros (E & _); discriminate]);
    try (split; reflexivity);
    try (split; [reflexivity | trivial]).
  all: destruct (Z.compare e e') eqn:Ee;
    try (split; [discriminate |
                 intros (_ & _ & ->); rewrite Z.compare_refl in Ee; discriminate]);
    apply Z.compare_eq in Ee; subst e';
    destruct (Pos.compare_cont Eq m m') eqn:Em; cbn;
    try (split; [discriminate |
                 intros (_ & -> & _); rewrite Pcompare_refl in Em; discriminate]);
    apply Pcompare_Eq_eq in Em; subst m'; split; auto.
Qed.

Lemma number_strict_eq_sym (a b : number) :
  number_strict_eq a b = true -> number_strict_eq b a = true.
Proof.
  rewrite !number_strict_eq_spec.
  destruct a, b; cbn; try tauto; try congruence.
  intros (-> & -> & ->). auto.
Qed.

Lemma number_strict_eq_trans (a b c : number) :
  number_strict_eq a b = true -> number_strict_eq b c = true ->
  number_strict_eq a c = true.
Proof.
  rewrite !number_strict_eq_spec.
  destruct a, b, c; cbn; try tauto; try congruence.
  intros (-> & -> & ->) (-> & -> & ->). auto.
Qed.

Lemma number_strict_eq_refl (a : number) :
  is_NaN a = false -> number_strict_eq a a = true.
Proof.
  rewrite number_strict_eq_spec. destruct a; cbn; auto; discriminate.
Qed.

Lemma number_strict_eq_NaN (a : number) : number_strict_eq NaN a = false.
Proof.
  reflexivity.
Qed.

(** The test both [Macro.equals] and [TimedMacro.equals] make on a pair of
    arrays, equal lengths and [every] with the element of the same index,
    is the element-wise comparison in order. *)
Lemma every_from_nth {A B : Type} (f : A -> B -> bool) (l : list A)
    (pre l' : list B) :
  length l = length l' ->
  every_from (fun x i => match nth_error (pre ++ l') i with
                         | Some y => f x y
                         | None => false
                         end) (length pre) l = true <->
  Forall2 (fun x y => f x y = true) l l'.
Proof.
  revert pre l'. induction l as [|x l IH]; intros pre [|y l'] Hlen;
    cbn in Hlen; try discriminate.
  - cbn. split; [constructor | reflexivity].
  - cbn [every_from].
    rewrite nth_error_app2, Nat.sub_diag by apply Nat.le_refl. cbn [nth_error].
    specialize (IH (pre ++ [y]) l').
    rewrite <- app_assoc, length_app, Nat.add_1_r in IH. cbn [app] in IH.
    destruct (f x y) eqn:Exy.
    + rewrite IH by now injection Hlen. split.
      * now constructor.
      * intros F. now inversion F.
    + split; [discriminate |].
      intros F. inversion F. congruence.
Qed.

Lemma same_length_every {A B : Type} (f : A -> B -> bool) (l : list A)
    (l' : list B) :
  Nat.eqb (length l) (length l') &&
  every (fun x i => match nth_error l' i with
                    | Some y => f x y
                    | None => false
                    end) l = true <->
  Forall2 (fun x y => f x y = true) l l'.
Proof.
  rewrite andb_true_iff, Nat.eqb_eq. split.
  - intros [Hlen Hevery]. now apply (every_from_nth f l [] l' Hlen).
  - intros F. pose proof (Forall2_length F) as Hlen.
    split; [exact Hlen |]. now apply (every_from_nth f l [] l' Hlen).
Qed.

(** Induction on binds, with the hypothesis on every child of a Macro and
    of a TimedMacro. *)
Lemma Bind_nested_ind (P : Bind -> Prop)
    (HPressKey : forall value, P (PressKey value))
    (HReleaseKey : forall value, P (ReleaseKey value))
    (HTapKey : forall value, P (TapKey value))
    (HMacro : forall binds, Forall P binds -> P (Macro binds))
    (HTimedMacro : forall binds times, Forall P binds -> P (TimedMacro binds times))
    (HRepeat : forall value time_delay times_to_execute cancel_trigger,
        P value -> P (Repeat value time_delay times_to_execute cancel_trigger))
    (HSwapLayer : forall layer_number, P (SwapLayer layer_number))
    (HAppOpen : forall app_name, P (AppOpen_Bind app_name)) :
  forall b, P b.
Proof.
  fix IH 1.
  intros [value|value|value|binds|binds times|value d n c|layer|app].
  - apply HPressKey.
  - apply HReleaseKey.
  - apply HTapKey.
  - apply HMacro. induction binds as [|b binds IHbinds]; constructor.
    + apply IH.
    + exact IHbinds.
  - apply HTimedMacro. induction binds as [|b binds IHbinds]; constructor.
    + apply IH.
    + exact IHbinds.
  - apply HRepeat. apply IH.
  - apply HSwapLayer.
  - apply HAppOpen.
Qed.

Lemma equals_Macro (bs bs' : list Bind) :
  equals (Macro bs) (Macro bs') = true <->
  Forall2 (fun x y => equals x y = true) bs bs'.
Proof.
  cbn [equals]. apply same_length_every.
Qed.

Lemma equals_TimedMacro (bs bs' : list Bind) (ts ts' : list number) :
  equals (TimedMacro bs ts) (TimedMacro bs' ts') = true <->
  Forall2 (fun x y => equals x y = true) bs bs' /\
  Forall2 (fun t t' => number_strict_eq t t' = true) ts ts'.
Proof.
  cbn [equals].
  rewrite <- (same_length_every equals bs bs').
  rewrite <- (same_length_every number_strict_eq ts ts').
  rewrite !andb_true_iff. tauto.
Qed.

Lemma equals_Repeat (v v' : Bind) (d d' n n' : number) (c c' : Trigger) :
  equals (Repeat v d n c) (Repeat v' d' n' c') =
  equals v v' && number_strict_eq d d' && number_strict_eq n n' &&
  Trigger_equals c c'.
Proof.
  reflexivity.
Qed.

Lemma Forall2_pointwise {A B : Type} (R S : A -> B -> Prop) (l : list A)
    (l' : list B) :
  Forall (fun x => forall y, R x y -> S x y) l ->
  Forall2 R l l' -> Forall2 S l l'.
Proof.
  intros HF H2. induction H2 as [|x y l l' Hxy H2 IH]; constructor;
    inversion HF; subst; auto.
Qed.

Lemma Forall2_chain {A : Type} (R : A -> A -> Prop) (l l' l'' : list A) :
  Forall (fun x => forall y z, R x y -> R y z -> R x z) l ->
  Forall2 R l l' -> Forall2 R l' l'' -> Forall2 R l l''.
Proof.
  intros HF H2. revert l''.
  induction H2 as [|x y l l' Hxy H2 IH]; intros l'' H3;
    inversion H3; subst; constructor; inversion HF; subst; eauto.
Qed.

Lemma Forall2_diagonal {A : Type} (R : A -> A -> Prop) (l : list A) :
  Forall (fun x => R x x) l -> Forall2 R l l.
Proof.
  induction 1; constructor; assumption.
Qed.

Lemma equals_cross_variant (a b : Bind) :
  bind_type a <> bind_type b -> equals a b = false.
Proof.
  destruct a, b; intros Hne; try reflexivity; now contradiction Hne.
Qed.

Lemma numbers_diagonal (ts : list number) :
  forallb (fun t => negb (is_NaN t)) ts = true ->
  Forall2 (fun t t' => number_strict_eq t t' = true) ts ts.
Proof.
  rewrite forallb_forall. intros H. apply Forall2_diagonal, Forall_forall.
  intros t Ht. apply number_strict_eq_refl.
  apply H in Ht. now apply negb_true_iff in Ht.
Qed.

Section TriggerEquivalence.

Hypothesis Trigger_equals_refl : forall t : Trigger, Trigger_equals t t = true.
Hypothesis Trigger_equals_sym :
  forall t u : Trigger, Trigger_equals t u = true -> Trigger_equals u t = true.
Hypothesis Trigger_equals_trans :
  forall t u v : Trigger,
    Trigger_equals t u = true -> Trigger_equals u v = true ->
    Trigger_equals t v = true.

Lemma equals_refl (b : Bind) : NaN_free b = true -> equals b b = true.
Proof.
  induction b as [v|v|v|bs IH|bs ts IH|v d n c IH|layer|app]
    using Bind_nested_ind; cbn [NaN_free]; intros Hb.
  - apply String.eqb_refl.
  - apply String.eqb_refl.
  - apply String.eqb_refl.
  - apply equals_Macro, Forall2_diagonal.
    rewrite forallb_forall in Hb. rewrite Forall_forall in *. auto.
  - apply andb_true_iff in Hb as [Hbs Hts].
    apply equals_TimedMacro. split.
    + apply Forall2_diagonal.
      rewrite forallb_forall in Hbs. rewrite Forall_forall in *. auto.
    + now apply numbers_diagonal.
  - rewrite !andb_true_iff, !negb_true_iff in Hb.
    destruct Hb as [[Hv Hd] Hn].
    rewrite equals_Repeat, IH, !number_strict_eq_refl, Trigger_equals_refl;
      auto.
  - apply number_strict_eq_refl. now apply negb_true_iff.
  - apply String.eqb_refl.
Qed.

Lemma Forall2_diagonal_inv {A : Type} (R : A -> A -> Prop) (l : list A) :
  Forall2 R l l -> Forall (fun x => R x x) l.
Proof.
  induction l as [|x l IH]; intros H; constructor; inversion H; auto.
Qed.

Lemma number_strict_eq_self (a : number) :
  number_strict_eq a a = negb (is_NaN a).
Proof.
  destruct (is_NaN a) eqn:E.
  - destruct a; try discriminate. reflexivity.
  - now apply number_strict_eq_refl.
Qed.

Lemma equals_self_NaN_free (b : Bind) : equals b b = true -> NaN_free b = true.
Proof.
  induction b as [v|v|v|bs IH|bs ts IH|v d n c IH|layer|app]
    using Bind_nested_ind; cbn [NaN_free]; try reflexivity.
  - rewrite equals_Macro. intros H. apply Forall2_diagonal_inv in H.
    apply forallb_forall. rewrite Forall_forall in *. auto.
  - rewrite equals_TimedMacro. intros [Hbs Hts].
    apply Forall2_diagonal_inv in Hbs, Hts.
    apply andb_true_iff. split; apply forallb_forall.
    + rewrite Forall_forall in *. auto.
    + rewrite Forall_forall in Hts. intros t Ht.
      rewrite <- number_strict_eq_self. auto.
  - rewrite equals_Repeat, !number_strict_eq_self, !andb_true_iff.
    intros [[[Hv Hd] Hn] _]. auto.
  - cbn. now rewrite number_strict_eq_self.
Qed.

Lemma equals_sym_true (a b : Bind) : equals a b = true -> equals b a = true.
Proof.
  revert b.
  induction a as [v|v|v|bs IH|bs ts IH|v d n c IH|layer|app]
    using Bind_nested_ind; intros [v'|v'|v'|bs'|bs' ts'|v' d' n' c'|layer'|app'];
    try discriminate.
  - cbn. now rewrite String.eqb_sym.
  - cbn. now rewrite String.eqb_sym.
  - cbn. now rewrite String.eqb_sym.
  - rewrite !equals_Macro. intros H.
    apply Forall2_flip. eapply Forall2_pointwise; [exact IH | exact H].
  - rewrite !equals_TimedMacro. intros [Hbs Hts]. split.
    + apply Forall2_flip. eapply Forall2_pointwise; [exact IH | exact Hbs].
    + apply Forall2_flip. eapply Forall2_pointwise; [| exact Hts].
      apply Forall_forall. intros t _ t'. apply number_strict_eq_sym.
  - rewrite !equals_Repeat, !andb_true_iff.
    intros [[[Hv Hd] Hn] Hc].
    auto using number_strict_eq_sym.
  - cbn. apply number_strict_eq_sym.
  - cbn. now rewrite String.eqb_sym.
Qed.

Lemma equals_sym (a b : Bind) : equals a b = equals b a.
Proof.
  destruct (equals a b) eqn:Eab, (equals b a) eqn:Eba; try reflexivity.
  - apply equals_sym_true in Eab. congruence.
  - apply equals_sym_true in Eba. congruence.
Qed.

Lemma equals_trans (a b c : Bind) :
  equals a b = true -> equals b c = true -> equals a c = true.
Proof.
  revert b c.
  induction a as [v|v|v|bs IH|bs ts IH|v d n t IH|layer|app]
    using Bind_nested_ind;
    intros [v'|v'|v'|bs'|bs' ts'|v' d' n' t'|layer'|app'];
    try discriminate;
    intros [v''|v''|v''|bs''|bs'' ts''|v'' d'' n'' t''|layer''|app''];
    try discriminate.
  - cbn. rewrite !String.eqb_eq. congruence.
  - cbn. rewrite !String.eqb_eq. congruence.
  - cbn. rewrite !String.eqb_eq. congruence.
  - rewrite !equals_Macro. apply Forall2_chain.
    eapply Forall_impl; [| exact IH]. cbn. eauto.
  - rewrite !equals_TimedMacro. intros [Hbs Hts] [Hbs' Hts']. split.
    + eapply Forall2_chain; [| exact Hbs | exact Hbs'].
      eapply Forall_impl; [| exact IH]. cbn. eauto.
    + eapply Forall2_chain; [| exact Hts | exact Hts'].
      apply Forall_forall. intros x _ y z. apply number_strict_eq_trans.
  - rewrite !equals_Repeat, !andb_true_iff.
    intros [[[Hv Hd] Hn] Hc] [[[Hv' Hd'] Hn'] Hc'].
    repeat split.
    + exact (IH _ _ Hv Hv').
    + exact (number_strict_eq_trans _ _ _ Hd Hd').
    + exact (number_strict_eq_trans _ _ _ Hn Hn').
    + exact (Trigger_equals_trans _ _ _ Hc Hc').
  - cbn. apply number_strict_eq_trans.
  - cbn. rewrite !String.eqb_eq. congruence.
Qed.

Lemma equals_Macro_length (bs bs' : list Bind) :
  length bs <> length bs' -> equals (Macro bs) (Macro bs') = false.
Proof.
  intros Hlen. destruct (equals (Macro bs) (Macro bs')) eqn:E; [| reflexivity].
  apply equals_Macro, Forall2_length in E. contradiction.
Qed.

Lemma equals_TimedMacro_length (bs bs' : list Bind) (ts ts' : list number) :
  length bs <> length bs' \/ length ts <> length ts' ->
  equals (TimedMacro bs ts) (TimedMacro bs' ts') = false.
Proof.
  intros Hlen.
  destruct (equals (TimedMacro bs ts) (TimedMacro bs' ts')) eqn:E;
    [| reflexivity].
  apply equals_TimedMacro in E as [Hbs Hts].
  apply Forall2_length in Hbs, Hts. tauto.
Qed.

(** C7.  The numeric attributes of a bind of the data model are integers
    and non-negative durations and counts: none is [NaN].  On the binds none
    of whose numeric attributes is [NaN], and provided the Trigger
    collaborator's [equals] is an equivalence, [equals] is reflexive,
    symmetric and transitive (symmetric and transitive on all binds, and
    reflexive at no other bind); it is false between binds of different
    variants; on Macro and TimedMacro it compares the children, and the
    times, element by element in order, a difference in length making it
    false; on Repeat it compares the child, the two numbers and the
    trigger. *)
Theorem C7_equals_partial_equivalence :
  (forall a : Bind, equals a a = true <-> NaN_free a = true) /\
  (forall a b : Bind, equals a b = equals b a) /\
  (forall a b c : Bind,
      equals a b = true -> equals b c = true -> equals a c = true) /\
  (forall a b : Bind, bind_type a <> bind_type b -> equals a b = false) /\
  (forall bs bs' : list Bind,
      equals (Macro bs) (Macro bs') = true <->
      Forall2 (fun x y => equals x y = true) bs bs') /\
  (forall (bs bs' : list Bind) (ts ts' : list number),
      equals (TimedMacro bs ts) (TimedMacro bs' ts') = true <->
      Forall2 (fun x y => equals x y = true) bs bs' /\
      Forall2 (fun t t' => number_strict_eq t t' = true) ts ts') /\
  (forall (v v' : Bind) (d d' n n' : number) (c c' : Trigger),
      equals (Repeat v d n c) (Repeat v' d' n' c') =
      equals v v' && number_strict_eq d d' && number_strict_eq n n' &&
      Trigger_equals c c') /\
  (forall bs bs' : list Bind,
      length bs <> length bs' -> equals (Macro bs) (Macro bs') = false) /\
  (forall (bs bs' : list Bind) (ts ts' : list number),
      length bs <> length bs' \/ length ts <> length ts' ->
      equals (TimedMacro bs ts) (TimedMacro bs' ts') = false).
Proof.
  split; [split; [apply equals_self_NaN_free | apply equals_refl] |].
  split; [exact equals_sym |].
  split; [exact equals_trans |].
  split; [exact equals_cross_variant |].
  split; [exact equals_Macro |].
  split; [exact equals_TimedMacro |].
  split; [exact equals_Repeat |].
  split; [exact equals_Macro_length | exact equals_TimedMacro_length].
Qed.

End TriggerEquivalence.

End Equality.

Lemma KeyTrigger_equals_refl (t : KeyTrigger) : KeyTrigger_equals t t = true.
Proof.
  destruct t; apply String.eqb_refl.
Qed.

Lemma KeyTrigger_equals_eq (t u : KeyTrigger) :
  KeyTrigger_equals t u = true <-> t = u.
Proof.
  destruct t, u; cbn; rewrite ?String.eqb_eq; split; congruence.
Qed.

Lemma KeyTrigger_equals_sym (t u : KeyTrigger) :
  KeyTrigger_equals t u = true -> KeyTrigger_equals u t = true.
Proof.
  rewrite !KeyTrigger_equals_eq. congruence.
Qed.

Lemma KeyTrigger_equals_trans (t u v : KeyTrigger) :
  KeyTrigger_equals t u = true -> KeyTrigger_equals u v = true ->
  KeyTrigger_equals t v = true.
Proof.
  rewrite !KeyTrigger_equals_eq. congruence.
Qed.

Lemma C7_equals_partial_equivalence_witness :
  let b := Repeat (TI := KeyTriggers)
             (TimedMacro [TapKey "A"; SwapLayer (number_of_Z 2)] [number_of_Z 100])
             (number_of_Z 50) (number_of_Z 3) (KeyPress "Escape") in
  NaN_free b = true /\ equals b b = true.
Proof.
  split; [reflexivity |].
  refine (proj2 (proj1 (C7_equals_partial_equivalence (TI := KeyTriggers)
                          KeyTrigger_equals_refl KeyTrigger_equals_sym
                          KeyTrigger_equals_trans) _) _).
  reflexivity.
Defined.

(** *** Serialization *)

Section Serialization.

Context {TI : TriggerInterface}.

Lemma with_prop_Get {A : Type} (key : string) (k : Json -> A)
    (fields : list (string * Json)) :
  with_prop key k (k JUndefined) fields = k (Get key fields).
Proof.
  induction fields as [|[name v] rest IH]; cbn.
  - reflexivity.
  - destruct (String.eqb name key); [reflexivity | exact IH].
Qed.

Lemma is_tag_true (v : Json) (tag : string) :
  is_tag v tag = true <-> v = JString tag.
Proof.
  destruct v; cbn; try (split; [discriminate | congruence]).
  rewrite String.eqb_eq. split; congruence.
Qed.

(** The [switch] of [deserializeBind]: each recognised discriminant leads to
    the [fromJSON] of its class, anything else to the default branch. *)
Lemma deserializeBind_switch (fields : list (string * Json)) :
  let type := Get "type" fields in
  (type = JString BindType.PressKey ->
   deserializeBind (JObject fields) = PressKey_fromJSON fields) /\
  (type = JString BindType.ReleaseKey ->
   deserializeBind (JObject fields) = ReleaseKey_fromJSON fields) /\
  (type = JString BindType.TapKey ->
   deserializeBind (JObject fields) = TapKey_fromJSON fields) /\
  (type = JString BindType.Macro ->
   deserializeBind (JObject fields) = Macro_fromJSON deserializeBind fields) /\
  (type = JString BindType.TimedMacro ->
   deserializeBind (JObject fields) = TimedMacro_fromJSON deserializeBind fields) /\
  (type = JString BindType.Repeat ->
   deserializeBind (JObject fields) = Repeat_fromJSON deserializeBind fields) /\
  (type = JString BindType.SwitchLayer ->
   deserializeBind (JObject fields) = SwapLayer_fromJSON fields) /\
  (type = JString BindType.AppOpen ->
   deserializeBind (JObject fields) = AppOpen_Bind_fromJSON fields) /\
  (known_type type = false ->
   deserializeBind (JObject fields) = unknown_type type).
Proof.
  cbn zeta. cbn [deserializeBind].
  repeat split; try (intros ->; reflexivity).
  unfold known_type, BindType.all. cbn [existsb].
  rewrite !orb_false_iff.
  intros (H1 & H2 & H3 & H4 & H5 & H6 & H7 & H8 & _).
  now rewrite H1, H2, H3, H4, H5, H6, H7, H8.
Qed.

(** C9.  A SwapLayer is serialized with the tag [switch_layer] and its layer
    number under the key [value], and with no other key; a document tagged
    [switch_layer] is turned into the SwapLayer of the number under its key
    [value], whatever else it holds; an AppOpen bind is serialized with its
    application name under the key [app_name]. *)
Theorem C9_SwapLayer_value_key (fields : list (string * Json)) (n : number)
    (Htype : Get "type" fields = JString "switch_layer")
    (Hvalue : Get "value" fields = JNumber n) :
  deserializeBind (JObject fields) = Ok (SwapLayer n) /\
  (forall layer_number : number,
      toJSON (SwapLayer layer_number) =
      JObject [("type", JString "switch_layer"); ("value", JNumber layer_number)] /\
      deserializeBind (toJSON (SwapLayer layer_number)) = Ok (SwapLayer layer_number)) /\
  (forall app_name : string,
      toJSON (AppOpen_Bind app_name) =
      JObject [("type", JString "app_open_bind"); ("app_name", JString app_name)]).
Proof.
  split; [| split; intros; [split |]; reflexivity].
  destruct (deserializeBind_switch fields) as (_ & _ & _ & _ & _ & _ & H & _).
  rewrite (H Htype). unfold SwapLayer_fromJSON. rewrite Hvalue. reflexivity.
Qed.

(** The three [fromJSON] routines that recurse, with the property reads
    written as plain reads. *)
Lemma Macro_fromJSON_Get (deserialize : Json -> Result Bind)
    (obj : list (string * Json)) :
  Macro_fromJSON deserialize obj =
  (binds <- binds_map deserialize (Get "binds" obj) ;; Ok (Macro binds)).
Proof.
  unfold Macro_fromJSON.
  now rewrite <- (with_prop_Get "binds" (binds_map deserialize)).
Qed.

Lemma TimedMacro_fromJSON_Get (deserialize : Json -> Result Bind)
    (obj : list (string * Json)) :
  TimedMacro_fromJSON deserialize obj =
  (binds <- binds_map deserialize (Get "binds" obj) ;;
   times <- as_number_array (Get "times" obj) ;;
   Ok (TimedMacro binds times)).
Proof.
  unfold TimedMacro_fromJSON.
  now rewrite <- (with_prop_Get "binds" (binds_map deserialize)).
Qed.

Lemma Repeat_fromJSON_Get (obj : list (string * Json)) :
  Repeat_fromJSON deserializeBind obj =
  (both <- andAlso (deserializeBind (Get "value" obj))
                   (deserializeTrigger (Get "cancel_trigger" obj)) ;;
   time_delay <- as_number (Get "time_delay" obj) ;;
   times_to_execute <- as_number (Get "times_to_execute" obj) ;;
   Ok (Repeat (fst both) time_delay times_to_execute (snd both))).
Proof.
  unfold Repeat_fromJSON.
  now rewrite <- (with_prop_Get "value" deserializeBind).
Qed.

Lemma as_number_array_numbers (ts : list number) :
  as_number_array (JArray (map JNumber ts)) = Ok ts.
Proof.
  cbn [as_number_array]. apply Array_map_Ok.
  induction ts as [|t ts IH]; cbn [map]; constructor; [reflexivity | exact IH].
Qed.

Lemma deserializeBind_Macro_document (bs : list Bind) :
  deserializeBind (toJSON (Macro bs)) =
  (binds <- Array_map deserializeBind (map toJSON bs) ;; Ok (Macro binds)).
Proof.
  cbn [toJSON].
  destruct (deserializeBind_switch
              [("type", JString BindType.Macro); ("binds", JArray (map toJSON bs))])
    as (_ & _ & _ & H & _).
  rewrite (H eq_refl), Macro_fromJSON_Get. reflexivity.
Qed.

Lemma deserializeBind_TimedMacro_document (bs : list Bind) (ts : list number) :
  deserializeBind (toJSON (TimedMacro bs ts)) =
  (binds <- Array_map deserializeBind (map toJSON bs) ;; Ok (TimedMacro binds ts)).
Proof.
  cbn [toJSON].
  destruct (deserializeBind_switch
              [("type", JString BindType.TimedMacro);
               ("binds", JArray (map toJSON bs));
               ("times", JArray (map JNumber ts))])
    as (_ & _ & _ & _ & H & _).
  rewrite (H eq_refl), TimedMacro_fromJSON_Get.
  change (Get "binds" _) with (JArray (map toJSON bs)).
  change (Get "times" _) with (JArray (map JNumber ts)).
  rewrite as_number_array_numbers. reflexivity.
Qed.

Lemma deserializeBind_Repeat_document (v : Bind) (d n : number) (c : Trigger) :
  deserializeBind (toJSON (Repeat v d n c)) =
  (both <- andAlso (deserializeBind (toJSON v))
                   (deserializeTrigger (Trigger_toJSON c)) ;;
   Ok (Repeat (fst both) d n (snd both))).
Proof.
  cbn [toJSON].
  destruct (deserializeBind_switch
              [("type", JString BindType.Repeat);
               ("value", toJSON v);
               ("time_delay", JNumber d);
               ("times_to_execute", JNumber n);
               ("cancel_trigger", Trigger_toJSON c)])
    as (_ & _ & _ & _ & _ & H & _).
  rewrite (H eq_refl), Repeat_fromJSON_Get. reflexivity.
Qed.

Section TriggerRoundTrip.

Hypothesis Trigger_round_trip :
  forall t : Trigger, exists t' : Trigger,
    deserializeTrigger (Trigger_toJSON t) = Ok t' /\
    Trigger_equals t' t = true /\ Trigger_equals t t' = true.

Lemma children_round_trip (bs : list Bind) :
  Forall round_trips bs ->
  exists bs' : list Bind,
    Array_map deserializeBind (map toJSON bs) = Ok bs' /\
    (forallb NaN_free bs = true ->
     Forall2 (fun x y => equals x y = true) bs' bs /\
     Forall2 (fun x y => equals x y = true) bs bs').
Proof.
  induction 1 as [|b bs (b' & Eb & Hb) _ (bs' & Ebs & Hbs)]; cbn [forallb map].
  - exists []. split; [reflexivity |]. intros _. split; constructor.
  - exists (b' :: bs'). split.
    + cbn [map]. now rewrite Array_map_cons, Eb, Ebs.
    + intros Hfree. apply andb_true_iff in Hfree as [Hfreeb Hfreebs].
      destruct (Hb Hfreeb), (Hbs Hfreebs). split; constructor; assumption.
Qed.

Lemma round_trip (b : Bind) : round_trips b.
Proof.
  induction b as [v|v|v|bs IH|bs ts IH|v d n c IH|layer|app]
    using Bind_nested_ind; unfold round_trips; cbn [NaN_free].
  - exists (PressKey v). cbn. now rewrite String.eqb_refl.
  - exists (ReleaseKey v). cbn. now rewrite String.eqb_refl.
  - exists (TapKey v). cbn. now rewrite String.eqb_refl.
  - destruct (children_round_trip bs IH) as (bs' & E & H).
    exists (Macro bs'). rewrite deserializeBind_Macro_document, E.
    split; [reflexivity |]. rewrite !equals_Macro. exact H.
  - destruct (children_round_trip bs IH) as (bs' & E & H).
    exists (TimedMacro bs' ts). rewrite deserializeBind_TimedMacro_document, E.
    split; [reflexivity |]. intros Hfree.
    apply andb_true_iff in Hfree as [Hbs Hts].
    rewrite !equals_TimedMacro. destruct (H Hbs).
    auto using numbers_diagonal.
  - destruct IH as (v' & E & H).
    destruct (Trigger_round_trip c) as (c' & Ec & Hc1 & Hc2).
    exists (Repeat v' d n c').
    rewrite deserializeBind_Repeat_document, E, Ec.
    split; [reflexivity |]. intros Hfree.
    rewrite !andb_true_iff, !negb_true_iff in Hfree.
    destruct Hfree as [[Hv Hd] Hn]. destruct (H Hv) as [H1 H2].
    rewrite !equals_Repeat, H1, H2, Hc1, Hc2, !number_strict_eq_refl by assumption.
    auto.
  - exists (SwapLayer layer). split; [reflexivity |]. intros Hfree. cbn.
    rewrite number_strict_eq_refl by now apply negb_true_iff. auto.
  - exists (AppOpen_Bind app). cbn. now rewrite String.eqb_refl.
Qed.

(** C3.  The numeric attributes of a bind of the data model are integers
    and non-negative durations and counts: none is [NaN].  Provided the
    Trigger collaborator's own round trip returns a trigger its [equals]
    relates to the original, for every bind [b] of any variant and any depth
    of nesting [deserializeBind(b.toJSON())] returns a bind, and when none of
    the numeric attributes of [b] is [NaN], [equals] relates that bind and
    [b], whichever of the two it is called on. *)
Theorem C3_round_trip_NaN_free (b : Bind) :
  exists b' : Bind,
    deserializeBind (toJSON b) = Ok b' /\
    (NaN_free b = true -> equals b' b = true /\ equals b b' = true).
Proof.
  exact (round_trip b).
Qed.

End TriggerRoundTrip.



Lemma andAlso_Throw {A B : Type} (r : Result A) (r' : Result B)
    (e : Exception) :
  andAlso r r' = Throw e <->
  r = Throw e \/ ((forall e', r <> Throw e') /\ r' = Throw e).
Proof.
  destruct r as [a| e1 |], r' as [b| e2 |]; cbn; split;
    try discriminate;
    try (intros H;
         first [ left; congruence | right; split; [discriminate | congruence] ]);
    intros [H | [Hr H]]; try discriminate; try congruence;
    now contradiction (Hr e1).
Qed.

(** What [Array_map] throws is what the callback throws on the first
    element it throws on. *)
Lemma Array_map_first_Throw {A B : Type} (f : A -> Result B) (l : list A)
    (e : Exception) :
  Array_map f l = Throw e <->
  exists pre x post,
    l = pre ++ x :: post /\
    Forall (fun y => forall e', f y <> Throw e') pre /\ f x = Throw e.
Proof.
  induction l as [|x l IH].
  - split; [discriminate |].
    intros (pre & y & post & E & _). now destruct pre.
  - rewrite Array_map_cons.
    assert (Hthen : (both <- andAlso (f x) (Array_map f l) ;;
                     Ok (fst both :: snd both)) = Throw e <->
                    andAlso (f x) (Array_map f l) = Throw e).
    { destruct (andAlso (f x) (Array_map f l)); cbn; split; congruence. }
    rewrite Hthen, andAlso_Throw, IH. split.
    + intros [Hx | [Hx (pre & y & post & -> & Hpre & Hy)]].
      * exists [], x, l. repeat split; [constructor | exact Hx].
      * exists (x :: pre), y, post. repeat split; [now constructor | exact Hy].
    + intros (pre & y & post & E & Hpre & Hy). destruct pre as [|z pre].
      * injection E as <- <-. now left.
      * injection E as <- ->. inversion Hpre; subst. right.
        split; [assumption |]. now exists pre, y, post.
Qed.





Lemma known_type_true (type : Json) :
  known_type type = true <-> exists tag, In tag BindType.all /\ type = JString tag.
Proof.
  unfold known_type. rewrite existsb_exists.
  split; intros (tag & Hin & H); exists tag; (split; [exact Hin |]);
    now apply is_tag_true.
Qed.


Section TriggerErrors.

(** [UnknownBindType] is the error of [deserializeBind]: the Trigger
    collaborator throws errors of its own. *)
Hypothesis deserializeTrigger_own_errors :
  forall obj : Json, deserializeTrigger obj <> Throw UnknownBindType.



End TriggerErrors.


End Serialization.

Lemma KeyTrigger_round_trip (t : KeyTrigger) :
  exists t' : KeyTrigger,
    deserializeKeyTrigger (KeyTrigger_toJSON t) = Ok t' /\
    KeyTrigger_equals t' t = true /\ KeyTrigger_equals t t' = true.
Proof.
  exists t. destruct t; cbn; now rewrite String.eqb_refl.
Qed.


Lemma C3_round_trip_NaN_free_witness :
  let b := Macro (TI := KeyTriggers)
             [TimedMacro
                [Repeat (TI := KeyTriggers)
                        (Macro [TapKey "A"; PressKey "B"]) (number_of_Z 10)
                        (number_of_Z 3) (KeyPress "Escape");
                 SwapLayer (number_of_Z 1)]
                [number_of_Z 100];
              AppOpen_Bind "editor"; ReleaseKey "B"] in
  exists b', deserializeBind (toJSON b) = Ok b' /\
             equals b' b = true /\ equals b b' = true.
Proof.
  intros b.
  destruct (C3_round_trip_NaN_free (TI := KeyTriggers) KeyTrigger_round_trip b)
    as (b' & E & H).
  exists b'. split; [exact E | exact (H eq_refl)].
Defined.



Lemma C9_SwapLayer_value_key_witness :
  deserializeBind (TI := KeyTriggers)
    (JObject [("type", JString "switch_layer");
              ("layer_number", JNumber (number_of_Z 7));
              ("value", JNumber (number_of_Z 2))])
  = Ok (SwapLayer (number_of_Z 2)).
Proof.
  refine (proj1 (C9_SwapLayer_value_key (TI := KeyTriggers) _ _ _ _));
    reflexivity.
Defined.

(** *** More on the compiler *)

Section LoweringOutcome.

Context {TI : TriggerInterface}.

Lemma Array_map_toLL_outcome (bs : list Bind) :
  Forall (fun b => (lowerable b = true -> exists l, toLL b = Ok l) /\
                   (lowerable b = false -> toLL b = Throw MethodNotImplemented)) bs ->
  (forallb lowerable bs = true -> exists ls, Array_map toLL bs = Ok ls) /\
  (forallb lowerable bs = false -> Array_map toLL bs = Throw MethodNotImplemented).
Proof.
  induction 1 as [|b bs [Hyes Hno] _ [IHyes IHno]]; cbn [forallb].
  - split; [now exists [] | discriminate].
  - rewrite Array_map_cons.
    destruct (lowerable b).
    + destruct (Hyes eq_refl) as (l & ->). cbn. split.
      * intros Hbs. destruct (IHyes Hbs) as (ls & ->). now exists (l :: ls).
      * intros Hbs. now rewrite (IHno Hbs).
    + rewrite (Hno eq_refl). cbn. split; [discriminate | reflexivity].
Qed.

Lemma toLL_outcome (b : Bind) :
  (lowerable b = true -> exists l, toLL b = Ok l) /\
  (lowerable b = false -> toLL b = Throw MethodNotImplemented).
Proof.
  induction b as [v|v|v|bs IH|bs ts IH|v d n c IH|layer|app]
    using Bind_nested_ind; cbn [lowerable];
    try (split; [intros _; eexists; reflexivity | discriminate]);
    try (split; [discriminate | reflexivity]).
  - destruct (Array_map_toLL_outcome bs IH) as [Hyes Hno]. cbn [toLL]. split.
    + intros Hbs. destruct (Hyes Hbs) as (ls & ->). now eexists.
    + intros Hbs. now rewrite (Hno Hbs).
  - split; [intros _ | discriminate].
    exists []. cbn [toLL]. apply TimedMacro_toLL_loop_exits.
Qed.

Lemma toLL_not_IllTyped (b : Bind) : toLL b <> IllTyped.
Proof.
  destruct (toLL_outcome b) as [Hyes Hno]. destruct (lowerable b).
  - destruct (Hyes eq_refl) as (l & ->). discriminate.
  - rewrite (Hno eq_refl). discriminate.
Qed.

Lemma Array_map_append {A B : Type} (f : A -> Result B) (l1 l2 : list A) :
  Forall (fun x => f x <> IllTyped) l1 ->
  Array_map f (l1 ++ l2) =
  (ys1 <- Array_map f l1 ;; ys2 <- Array_map f l2 ;; Ok (ys1 ++ ys2)).
Proof.
  induction 1 as [|x l1 Hx _ IH].
  - cbn. destruct (Array_map f l2); reflexivity.
  - cbn [app]. rewrite !Array_map_cons, IH.
    destruct (f x) as [y| e |]; [| reflexivity | contradiction].
    destruct (Array_map f l1); cbn; try reflexivity.
    destruct (Array_map f l2); reflexivity.
Qed.

(** X2.  Lowering the concatenation of two lists of children is lowering each
    list and appending the results, the first exception thrown being the one
    that comes out; and a Macro of one child lowers as the child does,
    exception included. *)
Theorem Macro_toLL_append (bs1 bs2 : list Bind) (b : Bind) :
  toLL (Macro (bs1 ++ bs2)) =
    (l1 <- toLL (Macro bs1) ;; l2 <- toLL (Macro bs2) ;; Ok (l1 ++ l2)) /\
  toLL (Macro [b]) = toLL b.
Proof.
  split.
  - cbn [toLL]. rewrite Array_map_append.
    + destruct (Array_map toLL bs1) as [ls1| |]; cbn; try reflexivity.
      destruct (Array_map toLL bs2) as [ls2| |]; cbn; try reflexivity.
      unfold flat. now rewrite concat_app.
    + apply Forall_forall. intros x _. apply toLL_not_IllTyped.
  - cbn. destruct (toLL b) as [l| |]; cbn; try reflexivity.
    now rewrite app_nil_r.
Qed.

(** X1.  [toLL] returns a sequence exactly on the binds in which no Repeat and no
    AppOpen bind is reached through the children of Macros, and on exactly
    the other binds it throws the "Method not implemented." error: it has no
    other outcome.  A TimedMacro always lowers, whatever its children are. *)
Theorem toLL_lowerable (b : Bind) :
  ((exists l, toLL b = Ok l) <-> lowerable b = true) /\
  (toLL b = Throw MethodNotImplemented <-> lowerable b = false) /\
  (forall (bs : list Bind) (ts : list number), lowerable (TimedMacro bs ts) = true).
Proof.
  destruct (toLL_outcome b) as [Hyes Hno].
  split; [| split; [| reflexivity]]; split; auto.
  - intros (l & E). destruct (lowerable b); [reflexivity |].
    rewrite (Hno eq_refl) in E. discriminate.
  - intros E. destruct (lowerable b); [| reflexivity].
    destruct (Hyes eq_refl) as (l & El). congruence.
Qed.

Lemma Array_map_toLL_no_wait (bs : list Bind) (ls : list (list LLBind)) :
  Forall (fun b => forall l, toLL b = Ok l -> existsb is_wait l = false) bs ->
  Array_map toLL bs = Ok ls -> existsb is_wait (flat ls) = false.
Proof.
  intros IH E. apply Array_map_Ok in E.
  induction E as [|b l bs ls Hb _ IHE]; [reflexivity |].
  inversion IH as [|b' bs' Hhead Htail]; subst.
  unfold flat. cbn [List.concat]. rewrite existsb_app.
  rewrite (Hhead l Hb). now apply IHE.
Qed.

(** X3.  No sequence that [toLL] returns holds a wait instruction: the only
    [toLL] that pushes one is that of TimedMacro, inside the loop it does
    not enter. *)
Theorem toLL_no_wait (b : Bind) (l : list LLBind) (Hl : toLL b = Ok l) :
  existsb is_wait l = false.
Proof.
  revert l Hl.
  induction b as [v|v|v|bs IH|bs ts IH|v d n c IH|layer|app]
    using Bind_nested_ind; intros l Hl; cbn [toLL] in Hl;
    try (injection Hl as <-; reflexivity); try discriminate.
  - destruct (Array_map toLL bs) as [ls| |] eqn:E; cbn in Hl; try discriminate.
    injection Hl as <-. now apply (Array_map_toLL_no_wait bs).
  - rewrite TimedMacro_toLL_loop_exits in Hl. now injection Hl as <-.
Qed.

Lemma LLBind_same_lists_app (l1 l1' l2 l2' : list LLBind) :
  Forall2 (fun x y => LLBind_same x y = true) l1 l1' ->
  Forall2 (fun x y => LLBind_same x y = true) l2 l2' ->
  Forall2 (fun x y => LLBind_same x y = true) (l1 ++ l2) (l1' ++ l2').
Proof.
  apply Forall2_app.
Qed.

Lemma Array_map_toLL_same (bs bs' : list Bind) :
  Forall2 (fun b b' => same_lowering (toLL b) (toLL b')) bs bs' ->
  same_lowering (lowered <- Array_map toLL bs ;; Ok (flat lowered))
                (lowered <- Array_map toLL bs' ;; Ok (flat lowered)).
Proof.
  induction 1 as [|b b' bs bs' Hb _ IH]; [constructor |].
  rewrite !Array_map_cons.
  destruct (toLL b) as [l| e |], (toLL b') as [l'| e' |],
           (Array_map toLL bs) as [ls| e'' |],
           (Array_map toLL bs') as [ls'| e''' |]; cbn in Hb, IH |- *;
    try contradiction; try assumption; try exact I.
  unfold flat. cbn [List.concat]. now apply LLBind_same_lists_app.
Qed.

(** X4.  Binds that [equals] relates lower alike: [toLL] throws the same
    exception on both, or returns two sequences of the same length whose
    instructions have, position by position, the same type and [===]
    values. *)
Theorem equals_same_lowering (a b : Bind) (Hab : equals a b = true) :
  same_lowering (toLL a) (toLL b).
Proof.
  revert b Hab.
  induction a as [v|v|v|bs IH|bs ts IH|v d n c IH|layer|app]
    using Bind_nested_ind;
    intros [v'|v'|v'|bs'|bs' ts'|v' d' n' c'|layer'|app'] Hab;
    try discriminate; cbn in Hab.
  - cbn. repeat constructor. exact Hab.
  - cbn. repeat constructor. exact Hab.
  - cbn. now repeat constructor.
  - cbn [toLL]. apply Array_map_toLL_same.
    apply (proj1 (same_length_every equals bs bs')) in Hab.
    eapply Forall2_pointwise; [| exact Hab]. exact IH.
  - cbn [toLL]. rewrite !TimedMacro_toLL_loop_exits. constructor.
  - reflexivity.
  - cbn. repeat constructor. exact Hab.
  - reflexivity.
Qed.

End LoweringOutcome.

Lemma toLL_no_wait_witness :
  toLL (TI := KeyTriggers)
       (Macro [TimedMacro [TapKey "A"] [number_of_Z 100]; TapKey "B"])
    = Ok [LLPressKey "B"; LLReleaseKey "B"] /\
  existsb is_wait [LLPressKey "B"; LLReleaseKey "B"] = false.
Proof.
  split; [reflexivity |].
  exact (toLL_no_wait (TI := KeyTriggers)
           (Macro [TimedMacro [TapKey "A"] [number_of_Z 100]; TapKey "B"])
           _ eq_refl).
Defined.

Lemma equals_same_lowering_witness :
  let a := Macro (TI := KeyTriggers) [SwapLayer (S754_zero false); TapKey "A"] in
  let b := Macro (TI := KeyTriggers) [SwapLayer (S754_zero true); TapKey "A"] in
  equals a b = true /\ same_lowering (toLL a) (toLL b).
Proof.
  intros a b. split; [reflexivity |].
  exact (equals_same_lowering (TI := KeyTriggers) a b eq_refl).
Defined.

(** *** More on structural equality *)

Section EqualityAndNaN.

Context {TI : TriggerInterface}.

Lemma number_strict_eq_not_NaN (a b : number) :
  number_strict_eq a b = true -> is_NaN a = false /\ is_NaN b = false.
Proof.
  rewrite number_strict_eq_spec. destruct a, b; cbn; intros H;
    try contradiction; split; reflexivity.
Qed.

Lemma Forall2_forallb_both {A : Type} (R : A -> A -> Prop) (p : A -> bool)
    (l l' : list A) :
  Forall (fun x => forall y, R x y -> p x = true /\ p y = true) l ->
  Forall2 R l l' -> forallb p l = true /\ forallb p l' = true.
Proof.
  intros HF H2. induction H2 as [|x y l l' Hxy _ IH]; [now split |].
  inversion HF as [|x' l'' Hx Hl]; subst.
  destruct (Hx y Hxy) as [Hpx Hpy]. destruct (IH Hl) as [IHl IHl'].
  cbn. now rewrite Hpx, Hpy, IHl, IHl'.
Qed.

Lemma times_not_NaN (ts ts' : list number) :
  Forall2 (fun t t' => number_strict_eq t t' = true) ts ts' ->
  forallb (fun t => negb (is_NaN t)) ts = true /\
  forallb (fun t => negb (is_NaN t)) ts' = true.
Proof.
  apply Forall2_forallb_both. apply Forall_forall. intros t _ t' H.
  apply number_strict_eq_not_NaN in H as [-> ->]. now split.
Qed.

(** X5.  A bind that holds [NaN] in a numeric attribute, at any depth, is
    related by [equals] to no bind at all, on either side: whenever [equals]
    answers true, neither of its arguments holds [NaN]. *)
Theorem equals_NaN_free (a b : Bind) (Hab : equals a b = true) :
  NaN_free a = true /\ NaN_free b = true.
Proof.
  revert b Hab.
  induction a as [v|v|v|bs IH|bs ts IH|v d n c IH|layer|app]
    using Bind_nested_ind;
    intros [v'|v'|v'|bs'|bs' ts'|v' d' n' c'|layer'|app'] Hab;
    try discriminate; try (split; reflexivity).
  - apply equals_Macro in Hab. cbn [NaN_free].
    exact (Forall2_forallb_both _ _ _ _ IH Hab).
  - apply equals_TimedMacro in Hab as [Hbs Hts]. cbn [NaN_free].
    destruct (Forall2_forallb_both _ _ _ _ IH Hbs) as [-> ->].
    destruct (times_not_NaN _ _ Hts) as [-> ->]. now split.
  - rewrite equals_Repeat, !andb_true_iff in Hab.
    destruct Hab as [[[Hv Hd] Hn] _]. cbn [NaN_free].
    destruct (IH _ Hv) as [-> ->].
    apply number_strict_eq_not_NaN in Hd as [-> ->].
    apply number_strict_eq_not_NaN in Hn as [-> ->]. now split.
  - cbn in Hab. apply number_strict_eq_not_NaN in Hab as [Hl Hl'].
    cbn [NaN_free]. now rewrite Hl, Hl'.
Qed.

End EqualityAndNaN.

Lemma equals_NaN_free_witness :
  let a := TimedMacro (TI := KeyTriggers) [SwapLayer (number_of_Z 1)] [number_of_Z 20] in
  equals a a = true /\ NaN_free a = true.
Proof.
  intros a. split; [reflexivity |].
  exact (proj1 (equals_NaN_free (TI := KeyTriggers) a a eq_refl)).
Defined.

(** *** More on serialization *)

Section DocumentsAndBinds.

Context {TI : TriggerInterface}.

(** Splits the outcome of every [andThen] that stands in the way of [E]. *)
Ltac split_outcomes E :=
  repeat match type of E with
         | context [andThen ?r _] =>
             let Er := fresh "Er" in
             destruct r eqn:Er; cbn [andThen] in E; try discriminate
         end.

Lemma toJSON_type_field (b : Bind) :
  type_field (toJSON b) = JString (bind_type b) /\
  In (bind_type b) BindType.all.
Proof.
  destruct b; cbn; intuition.
Qed.

(** X6.  The discriminant is kept both ways: a document that [deserializeBind]
    turns into a bind [b] carries in its [type] field the [bind_type] of
    [b], which is one of the eight discriminants and the one that
    [b.toJSON()] writes. *)
Theorem deserializeBind_type_field (obj : Json) (b : Bind)
    (Hb : deserializeBind obj = Ok b) :
  type_field obj = JString (bind_type b) /\
  type_field (toJSON b) = type_field obj /\
  In (bind_type b) BindType.all.
Proof.
  destruct (toJSON_type_field b) as [Hwritten Hin].
  assert (Hread : type_field obj = JString (bind_type b)).
  { destruct obj as [ | | | | | |fields]; try discriminate. cbn [type_field].
    pose proof (deserializeBind_switch fields) as Hswitch. cbn zeta in Hswitch.
    destruct Hswitch as (HP & HR & HT & HM & HTM & HRp & HS & HA & HU).
    destruct (known_type (Get "type" fields)) eqn:K.
    - apply known_type_true in K as (tag & Htag & Htype). cbn in Htag.
      destruct Htag as [<-|[<-|[<-|[<-|[<-|[<-|[<-|[<-|[]]]]]]]]].
      + rewrite (HP Htype) in Hb. unfold PressKey_fromJSON in Hb.
        split_outcomes Hb. now injection Hb as <-.
      + rewrite (HR Htype) in Hb. unfold ReleaseKey_fromJSON in Hb.
        split_outcomes Hb. now injection Hb as <-.
      + rewrite (HT Htype) in Hb. unfold TapKey_fromJSON in Hb.
        split_outcomes Hb. now injection Hb as <-.
      + rewrite (HS Htype) in Hb. unfold SwapLayer_fromJSON in Hb.
        split_outcomes Hb. now injection Hb as <-.
      + rewrite (HM Htype), Macro_fromJSON_Get in Hb.
        split_outcomes Hb. now injection Hb as <-.
      + rewrite (HTM Htype), TimedMacro_fromJSON_Get in Hb.
        split_outcomes Hb. now injection Hb as <-.
      + rewrite (HRp Htype), Repeat_fromJSON_Get in Hb.
        split_outcomes Hb. now injection Hb as <-.
      + rewrite (HA Htype) in Hb. unfold AppOpen_Bind_fromJSON in Hb.
        split_outcomes Hb. now injection Hb as <-.
    - rewrite (HU eq_refl) in Hb. unfold unknown_type in Hb.
      destruct (text_throws (Get "type" fields)); discriminate. }
  repeat split; congruence.
Qed.

(** X7.  A macro or timed macro document whose [binds] is missing or is anything
    but an array, and a repeat document whose [value] is missing or [null],
    make [deserializeBind] throw a TypeError, not the unknown type error. *)
Theorem deserializeBind_malformed_children (fields : list (string * Json))
    (Hmalformed :
       ((Get "type" fields = JString "macro" \/
         Get "type" fields = JString "timed_macro_bind") /\
        forall items, Get "binds" fields <> JArray items) \/
       (Get "type" fields = JString "repeat_bind" /\
        (Get "value" fields = JUndefined \/ Get "value" fields = JNull))) :
  deserializeBind (JObject fields) = Throw TypeError.
Proof.
  pose proof (deserializeBind_switch fields) as Hswitch. cbn zeta in Hswitch.
  destruct Hswitch as (_ & _ & _ & HM & HTM & HRp & _).
  destruct Hmalformed as [[Htype Hbinds] | [Htype Hvalue]].
  - assert (E : binds_map deserializeBind (Get "binds" fields) = Throw TypeError).
    { destruct (Get "binds" fields) as [ | | | | |items|]; try reflexivity.
      now contradiction (Hbinds items). }
    destruct Htype as [Htype | Htype].
    + now rewrite (HM Htype), Macro_fromJSON_Get, E.
    + now rewrite (HTM Htype), TimedMacro_fromJSON_Get, E.
  - rewrite (HRp Htype), Repeat_fromJSON_Get.
    now destruct Hvalue as [-> | ->].
Qed.

(** X8.  A macro document with an array under [binds] deserializes exactly
    when each element does, to the Macro of the binds obtained, in order;
    and it throws exactly what [deserializeBind] throws on the first element
    on which it throws, the elements before that one having returned a bind
    or an ill-typed object. *)
Theorem deserializeBind_Macro_children (fields : list (string * Json))
    (items : list Json)
    (Htype : Get "type" fields = JString "macro")
    (Hbinds : Get "binds" fields = JArray items) :
  (forall b : Bind,
      deserializeBind (JObject fields) = Ok b <->
      exists bs, b = Macro bs /\
                 Forall2 (fun item c => deserializeBind item = Ok c) items bs) /\
  (forall e : Exception,
      deserializeBind (JObject fields) = Throw e <->
      exists pre item post,
        items = pre ++ item :: post /\
        Forall (fun earlier => forall e', deserializeBind earlier <> Throw e') pre /\
        deserializeBind item = Throw e).
Proof.
  pose proof (deserializeBind_switch fields) as Hswitch. cbn zeta in Hswitch.
  destruct Hswitch as (_ & _ & _ & HM & _).
  rewrite (HM Htype), Macro_fromJSON_Get, Hbinds. cbn [binds_map].
  split.
  - intros b. split.
    + intros E. split_outcomes E. injection E as <-.
      eexists. split; [reflexivity |]. now apply Array_map_Ok.
    + intros (bs & -> & H). apply Array_map_Ok in H. now rewrite H.
  - intros e. rewrite <- Array_map_first_Throw.
    destruct (Array_map deserializeBind items); cbn; split; congruence.
Qed.

Section ExactTriggerRoundTrip.

Hypothesis Trigger_exact_round_trip :
  forall t : Trigger, deserializeTrigger (Trigger_toJSON t) = Ok t.

Lemma children_exact_round_trip (bs : list Bind) :
  Forall (fun b => deserializeBind (toJSON b) = Ok b) bs ->
  Array_map deserializeBind (map toJSON bs) = Ok bs.
Proof.
  intros H. apply Array_map_Ok.
  induction H; cbn [map]; constructor; assumption.
Qed.

Lemma deserializeBind_toJSON (b : Bind) : deserializeBind (toJSON b) = Ok b.
Proof.
  induction b as [v|v|v|bs IH|bs ts IH|v d n c IH|layer|app]
    using Bind_nested_ind; try reflexivity.
  - now rewrite deserializeBind_Macro_document, children_exact_round_trip.
  - now rewrite deserializeBind_TimedMacro_document, children_exact_round_trip.
  - rewrite deserializeBind_Repeat_document, IH. cbn [andThen].
    now rewrite Trigger_exact_round_trip.
Qed.

(** X9.  When the Trigger collaborator's round trip gives back the very trigger,
    [deserializeBind(b.toJSON())] gives back the very bind [b], attribute
    for attribute, [NaN] and negative zero included; so [toJSON] loses
    nothing: two binds with the same document are the same bind. *)
Theorem toJSON_exact_round_trip (a : Bind) :
  deserializeBind (toJSON a) = Ok a /\
  (forall b : Bind, toJSON a = toJSON b -> a = b).
Proof.
  split; [apply deserializeBind_toJSON |].
  intros b E. pose proof (deserializeBind_toJSON a) as Ha.
  rewrite E, deserializeBind_toJSON in Ha. congruence.
Qed.

End ExactTriggerRoundTrip.

End DocumentsAndBinds.

Lemma KeyTrigger_exact_round_trip (t : KeyTrigger) :
  deserializeKeyTrigger (KeyTrigger_toJSON t) = Ok t.
Proof.
  destruct t; reflexivity.
Qed.

Lemma deserializeBind_type_field_witness :
  let obj := JObject [("value", JString "A"); ("type", JString "tap_key")] in
  deserializeBind (TI := KeyTriggers) obj = Ok (TapKey "A") /\
  type_field obj = JString "tap_key".
Proof.
  intros obj. split; [reflexivity |].
  exact (proj1 (deserializeBind_type_field (TI := KeyTriggers) obj (TapKey "A")
                  eq_refl)).
Defined.

Lemma deserializeBind_malformed_children_witness :
  deserializeBind (TI := KeyTriggers) (JObject [("type", JString "macro")])
  = Throw TypeError.
Proof.
  apply (deserializeBind_malformed_children (TI := KeyTriggers)).
  left. split; [now left | discriminate].
Defined.

Lemma deserializeBind_Macro_children_witness :
  let ill_typed := JObject [("type", JString "press_key"); ("value", JNull)] in
  let bad := JObject [("type", JString "bad")] in
  let fields := [("type", JString "macro");
                 ("binds", JArray [ill_typed; bad; JNull])] in
  deserializeBind (TI := KeyTriggers) (JObject fields) = Throw UnknownBindType.
Proof.
  intros ill_typed bad fields.
  refine (proj2 (proj2 (deserializeBind_Macro_children (TI := KeyTriggers)
                          fields [ill_typed; bad; JNull] eq_refl eq_refl)
                   UnknownBindType) _).
  exists [ill_typed], bad, [JNull]. split; [reflexivity | split].
  - constructor; [| constructor]. intros e'. discriminate.
  - reflexivity.
Defined.

Lemma toJSON_exact_round_trip_witness :
  let b := Repeat (TI := KeyTriggers) (SwapLayer NaN) (S754_zero true)
             (number_of_Z 3) (KeyRelease "F1") in
  deserializeBind (toJSON b) = Ok b.
Proof.
  intros b.
  exact (proj1 (toJSON_exact_round_trip (TI := KeyTriggers)
                  KeyTrigger_exact_round_trip b)).
Defined.

(** *** Rendering *)

Section RenderingOutcome.

Context {TI : TriggerInterface}.

Variable Number_toString : number -> string.

Lemma Array_map_toString_outcome (bs : list Bind) :
  Forall (fun b =>
            (renderable b = true -> exists s, toString Number_toString b = Ok s) /\
            (renderable b = false ->
             toString Number_toString b = Throw MethodNotImplemented)) bs ->
  (forallb renderable bs = true ->
   exists ss, Array_map (toString Number_toString) bs = Ok ss) /\
  (forallb renderable bs = false ->
   Array_map (toString Number_toString) bs = Throw MethodNotImplemented).
Proof.
  induction 1 as [|b bs [Hyes Hno] _ [IHyes IHno]]; cbn [forallb].
  - split; [now exists [] | discriminate].
  - rewrite Array_map_cons.
    destruct (renderable b).
    + destruct (Hyes eq_refl) as (s & ->). cbn. split.
      * intros Hbs. destruct (IHyes Hbs) as (ss & ->). now exists (s :: ss).
      * intros Hbs. now rewrite (IHno Hbs).
    + rewrite (Hno eq_refl). cbn. split; [discriminate | reflexivity].
Qed.

Lemma toString_outcome (b : Bind) :
  (renderable b = true -> exists s, toString Number_toString b = Ok s) /\
  (renderable b = false -> toString Number_toString b = Throw MethodNotImplemented).
Proof.
  induction b as [v|v|v|bs IH|bs ts IH|v d n c IH|layer|app]
    using Bind_nested_ind; cbn [renderable];
    try (split; [intros _; eexists; reflexivity | discriminate]);
    try (split; [discriminate | reflexivity]).
  destruct (Array_map_toString_outcome bs IH) as [Hyes Hno]. cbn [toString].
  split.
  - intros Hbs. destruct (Hyes Hbs) as (ss & ->). now eexists.
  - intros Hbs. now rewrite (Hno Hbs).
Qed.

Lemma renderable_lowerable (b : Bind) :
  renderable b = true -> lowerable b = true.
Proof.
  induction b as [v|v|v|bs IH|bs ts IH|v d n c IH|layer|app]
    using Bind_nested_ind; cbn [renderable lowerable]; try tauto.
  rewrite !forallb_forall. rewrite Forall_forall in IH. auto.
Qed.

(** X11.  [toString] returns a label exactly on the binds made of PressKey,
    ReleaseKey, TapKey, SwapLayer and Macro only, and throws the "Method not
    implemented." error on exactly the others, a Macro with a TimedMacro,
    Repeat or AppOpen bind somewhere inside included.  Every bind that has a
    label also lowers. *)
Theorem toString_renderable (b : Bind) :
  ((exists s, toString Number_toString b = Ok s) <-> renderable b = true) /\
  (toString Number_toString b = Throw MethodNotImplemented <->
   renderable b = false) /\
  (forall s, toString Number_toString b = Ok s -> exists l, toLL b = Ok l).
Proof.
  destruct (toString_outcome b) as [Hyes Hno].
  assert (Hiff : (exists s, toString Number_toString b = Ok s) <->
                 renderable b = true).
  { split; [| exact Hyes].
    intros (s & E). destruct (renderable b); [reflexivity |].
    rewrite (Hno eq_refl) in E. discriminate. }
  split; [exact Hiff | split].
  - split; [| exact Hno].
    intros E. destruct (renderable b); [| reflexivity].
    destruct (Hyes eq_refl) as (s & Es). congruence.
  - intros s E. apply (toLL_outcome b), renderable_lowerable, Hiff.
    now exists s.
Qed.

(** X12.  A label tells the variant: two binds with the same label have the same
    [bind_type]. *)
Theorem toString_tells_variant (a b : Bind) (s : string)
    (Ha : toString Number_toString a = Ok s)
    (Hb : toString Number_toString b = Ok s) :
  bind_type a = bind_type b.
Proof.
  destruct a, b; cbn [toString] in Ha, Hb; try discriminate;
    try reflexivity;
    repeat match type of Ha with
           | context [andThen ?r _] =>
               destruct r; cbn [andThen] in Ha; try discriminate
           end;
    repeat match type of Hb with
           | context [andThen ?r _] =>
               destruct r; cbn [andThen] in Hb; try discriminate
           end;
    rewrite <- Ha in Hb; cbn [append] in Hb; discriminate.
Qed.

(** X13.  A label does not tell the bind: a Macro of one PressKey whose key name
    holds the separator has the label of a Macro of two PressKeys, which
    [equals] does not relate to it. *)
Theorem toString_Macro_ambiguous (u v : string) :
  let one := Macro [PressKey (u ++ ", Press: " ++ v)%string] in
  let two := Macro [PressKey u; PressKey v] in
  toString Number_toString one = toString Number_toString two /\
  equals one two = false.
Proof.
  split; reflexivity.
Qed.

End RenderingOutcome.

Lemma toString_tells_variant_witness :
  let a := Macro (TI := KeyTriggers) [PressKey "A, Tap: B"] in
  let b := Macro (TI := KeyTriggers) [PressKey "A"; TapKey "B"] in
  toString (fun _ => "1") a = Ok "Macro: Press: A, Tap: B" /\
  toString (fun _ => "1") b = Ok "Macro: Press: A, Tap: B" /\
  bind_type a = bind_type b.
Proof.
  intros a b. split; [reflexivity | split; [reflexivity |]].
  exact (toString_tells_variant (TI := KeyTriggers) (fun _ => "1") a b
           "Macro: Press: A, Tap: B" eq_refl eq_refl).
Defined.

(** *** Reloading and compiling *)

Section ReloadedBinds.

Context {TI : TriggerInterface}.

Variable Number_toString : number -> string.

Lemma Array_map_pointwise {A B : Type} (f : A -> Result B) (l l' : list A) :
  Forall2 (fun x y => f y = f x) l l' -> Array_map f l' = Array_map f l.
Proof.
  induction 1 as [|x y l l' Hxy _ IH]; [reflexivity |].
  now rewrite !Array_map_cons, Hxy, IH.
Qed.

Lemma reloaded_children (bs bs' : list Bind) :
  Array_map deserializeBind (map toJSON bs) = Ok bs' ->
  Forall2 (fun b b' => deserializeBind (toJSON b) = Ok b') bs bs'.
Proof.
  rewrite Array_map_Ok. revert bs'.
  induction bs as [|b bs IH]; intros bs' H; inversion H; subst; constructor;
    auto.
Qed.

(** X10.  Whatever [deserializeBind(b.toJSON())] returns lowers exactly as [b]
    does and has the label [b] has, the exceptions included: the bind that
    comes back can differ from [b] in the triggers of its Repeats only,
    which neither [toLL] nor [toString] reads. *)
Theorem reloaded_bind_lowers_alike (b b' : Bind)
    (Hreload : deserializeBind (toJSON b) = Ok b') :
  toLL b' = toLL b /\
  toString Number_toString b' = toString Number_toString b.
Proof.
  revert b' Hreload.
  induction b as [v|v|v|bs IH|bs ts IH|v d n c IH|layer|app]
    using Bind_nested_ind; intros b' Hreload;
    try (cbn in Hreload; injection Hreload as <-; split; reflexivity).
  - rewrite deserializeBind_Macro_document in Hreload.
    destruct (Array_map deserializeBind (map toJSON bs)) as [bs'| |] eqn:E;
      cbn in Hreload; try discriminate.
    injection Hreload as <-. apply reloaded_children in E.
    cbn [toLL toString]. split.
    + rewrite (Array_map_pointwise toLL bs bs'); [reflexivity |].
      eapply Forall2_pointwise; [| exact E].
      eapply Forall_impl; [| exact IH]. intros x Hx y Hy. now apply Hx.
    + rewrite (Array_map_pointwise (toString Number_toString) bs bs');
        [reflexivity |].
      eapply Forall2_pointwise; [| exact E].
      eapply Forall_impl; [| exact IH]. intros x Hx y Hy. now apply Hx.
  - rewrite deserializeBind_TimedMacro_document in Hreload.
    destruct (Array_map deserializeBind (map toJSON bs)) as [bs'| |];
      cbn in Hreload; try discriminate.
    injection Hreload as <-. cbn [toLL toString].
    now rewrite !TimedMacro_toLL_loop_exits.
  - rewrite deserializeBind_Repeat_document in Hreload.
    destruct (deserializeBind (toJSON v)) as [v'| |],
             (deserializeTrigger (Trigger_toJSON c)) as [c'| |];
      cbn in Hreload; try discriminate.
    injection Hreload as <-. split; reflexivity.
Qed.

End ReloadedBinds.

Lemma reloaded_bind_lowers_alike_witness :
  let b := Macro (TI := KeyTriggers) [TapKey "A"; TimedMacro [PressKey "B"] []] in
  deserializeBind (toJSON b) = Ok b /\
  toLL b = Ok [LLPressKey "A"; LLReleaseKey "A"].
Proof.
  intros b. split; [reflexivity |].
  exact (eq_trans
           (proj1 (reloaded_bind_lowers_alike (TI := KeyTriggers)
                     (fun _ => "1") b b eq_refl))
           eq_refl).
Defined.
